(** * statdir: a file based stats collector, verified over a shallow embedding

    The development follows [statdir.go].  A [Collector] owns a map of named
    64-bit counters; [Collect] creates the stats directory, writes the
    [STARTED] marker, then serves update requests one at a time, rewriting
    the file of the updated counter, until it is told to finish, at which
    point the deferred calls close the channels and write [FINISHED].

    The Go runtime and operating system are modelled explicitly:
    - an [int64] is a [Z] with the wrap-around of [atomic.AddInt64] written
      out;
    - the file system is a finite map from paths to contents together with
      the set of directories, on which [os.MkdirAll] and [ioutil.WriteFile]
      can fail;
    - the two channels the loop selects on are replaced by the list of
      messages the [select] receives, in the order it receives them;
    - every [ioutil.WriteFile] call and every received message is appended
      to a trace, so that ordering properties can be stated. *)

From Stdlib Require Import ZArith Ascii String List Lia.
From stdpp Require Import base option list gmap strings pretty fin_maps.

Local Open Scope string_scope.
Local Open Scope Z_scope.

#[local] Set Warnings "-clear-no-such-hyp".

(** ** Library functions of the Go standard library used by the package *)

Module strings.

(** [strings.ToUpper] on one byte of an ASCII string. *)
Definition upper_byte (a : ascii) : ascii :=
  let n := nat_of_ascii a in
  if ((97 <=? n) && (n <=? 122))%nat then ascii_of_nat (n - 32) else a.

(** [strings.ToUpper]: the bytes ['a'..'z'] are mapped to ['A'..'Z'].
    Bytes outside ASCII are kept (the Unicode case tables are not part of
    the model, names are taken to be ASCII). *)
Fixpoint ToUpper (s : string) : string :=
  match s with
  | EmptyString => EmptyString
  | String a s' => String (upper_byte a) (ToUpper s')
  end.

(** [strings.Join(elems, sep)]. *)
Fixpoint Join (elems : list string) (sep : string) : string :=
  match elems with
  | [] => ""
  | [e] => e
  | e :: es => e +:+ sep +:+ Join es sep
  end.

End strings.

Module path.

(** The [/]-separated elements of a path, empty ones included. *)
Fixpoint segments (s : string) : list string :=
  match s with
  | EmptyString => [""]
  | String a s' =>
      if Ascii.eqb a "/" then "" :: segments s'
      else match segments s' with
           | [] => [String a ""]
           | e :: es => String a e :: es
           end
  end.

(** One round of the loop of [path.Clean]; [out] holds the elements kept
    so far, the most recent first. *)
Definition clean_step (rooted : bool) (out : list string) (e : string)
    : list string :=
  if String.eqb e "" then out
  else if String.eqb e "." then out
  else if String.eqb e ".." then
    match out with
    | top :: rest => if String.eqb top ".." then e :: out else rest
    | [] => if rooted then [] else [e]
    end
  else e :: out.

(** [path.Clean]. *)
Definition Clean (p : string) : string :=
  if String.eqb p "" then "."
  else
    let rooted := String.prefix "/" p in
    let out := fold_left (clean_step rooted) (segments p) [] in
    let body := strings.Join (rev out) "/" in
    if rooted then "/" +:+ body
    else if String.eqb body "" then "." else body.

(** [path.Join]: the elements from the first non-empty one on are joined
    with slashes and the result is cleaned. *)
Fixpoint Join (elem : list string) : string :=
  match elem with
  | [] => ""
  | e :: es =>
      if String.eqb e "" then Join es
      else Clean (strings.Join elem "/")
  end.

End path.

Module strconv.

(** [strconv.FormatInt(v, 10)]. *)
Definition FormatInt (v : Z) : string := pretty v.

End strconv.

Module time.

(** A [time.Time]: the seconds elapsed since January 1, year 1,
    00:00:00 UTC, and the offset of the time's location east of UTC, in
    seconds. *)
Record Time := mkTime { sec : Z; offset : Z }.

(** The zero value of [time.Time]. *)
Definition zero : Time := mkTime 0 0.

Definition pad2 (n : Z) : string :=
  if n <? 10 then "0" +:+ pretty n else pretty n.

(** [appendInt(b, year, 4)]. *)
Definition pad4 (n : Z) : string :=
  let a := Z.abs n in
  let digits :=
    if a <? 10 then "000" +:+ pretty a
    else if a <? 100 then "00" +:+ pretty a
    else if a <? 1000 then "0" +:+ pretty a
    else pretty a in
  if n <? 0 then "-" +:+ digits else digits.

(** Year, month and day of the proleptic Gregorian calendar, from the
    number of days since January 1, year 1. *)
Definition civil (days : Z) : Z * Z * Z :=
  let z := days + 306 in
  let era := z / 146097 in
  let doe := z mod 146097 in
  let yoe := (doe - doe / 1460 + doe / 36524 - doe / 146096) / 365 in
  let doy := doe - (365 * yoe + yoe / 4 - yoe / 100) in
  let mp := (5 * doy + 2) / 153 in
  let d := doy - (153 * mp + 2) / 5 + 1 in
  let m := if mp <? 10 then mp + 3 else mp - 9 in
  let y := yoe + era * 400 + (if m <=? 2 then 1 else 0) in
  (y, m, d).

(** The zone of the layout [Z07:00]. *)
Definition format_zone (off : Z) : string :=
  if off =? 0 then "Z"
  else
    let zone := Z.quot off 60 in
    let a := Z.abs zone in
    (if zone <? 0 then "-" else "+") +:+ pad2 (a / 60) +:+ ":" +:+ pad2 (a mod 60).

(** [t.Format(time.RFC3339)], layout [2006-01-02T15:04:05Z07:00]. *)
Definition FormatRFC3339 (t : Time) : string :=
  let abs := sec t + offset t in
  let '(y, m, d) := civil (abs / 86400) in
  let s := abs mod 86400 in
  pad4 y +:+ "-" +:+ pad2 m +:+ "-" +:+ pad2 d +:+ "T" +:+
  pad2 (s / 3600) +:+ ":" +:+ pad2 (s mod 3600 / 60) +:+ ":" +:+ pad2 (s mod 60) +:+
  format_zone (offset t).

End time.

(** A Go [error] value. *)
Inductive error : Type :=
  | PathError (op : string) (path : string) (msg : string)
  | Errorf (msg : string).

Module os.

(** The part of the file system the package touches: the regular files
    with their contents, the directories, and the paths at which the
    process is not allowed to create or open anything.  Parent directories
    are not tracked. *)
Record FileSystem := mkFS {
  files : gmap string string;
  dirs : gset string;
  denied : gset string
}.

(** [os.MkdirAll(path, 0755)]: nothing to do when [path] is a directory
    already; an error when it is a regular file or cannot be created. *)
Definition MkdirAll (path : string) (fs : FileSystem)
    : FileSystem * option error :=
  if decide (path ∈ dirs fs) then (fs, None)
  else if decide (is_Some (files fs !! path)) then
    (fs, Some (PathError "mkdir" path "not a directory"))
  else if decide (path ∈ denied fs) then
    (fs, Some (PathError "mkdir" path "permission denied"))
  else (mkFS (files fs) ({[path]} ∪ dirs fs) (denied fs), None).

End os.

Module ioutil.

(** [ioutil.WriteFile(filename, data, 0644)]: the file is created or
    truncated and holds exactly [data] afterwards; nothing changes when
    it cannot be opened for writing. *)
Definition WriteFile (filename data : string) (fs : os.FileSystem)
    : os.FileSystem * option error :=
  if decide (filename ∈ os.dirs fs) then
    (fs, Some (PathError "open" filename "is a directory"))
  else if decide (filename ∈ os.denied fs) then
    (fs, Some (PathError "open" filename "permission denied"))
  else (os.mkFS (<[filename := data]> (os.files fs)) (os.dirs fs) (os.denied fs), None).

End ioutil.

Module int64.

Definition min : Z := - 2 ^ 63.
Definition max : Z := 2 ^ 63 - 1.

(** The value of type [int64] that a mathematical integer wraps to. *)
Definition wrap (z : Z) : Z := (z + 2 ^ 63) mod 2 ^ 64 - 2 ^ 63.

Definition in_range (z : Z) : Prop := min <= z <= max.

End int64.

Module atomic.

(** [atomic.AddInt64(addr, delta)] on the cell [addr] points to: the new
    contents, which is also the result.  [None] stands for the nil
    pointer, whose dereference panics. *)
Definition AddInt64 (cell : option Z) (delta : Z) : option Z :=
  match cell with
  | Some v => Some (int64.wrap (v + delta))
  | None => None
  end.

(** [atomic.StoreInt64(addr, val)]. *)
Definition StoreInt64 (cell : option Z) (val : Z) : option Z :=
  match cell with
  | Some _ => Some val
  | None => None
  end.

End atomic.

(** ** The package *)

Module statdir.

Import time.

(** [op] contains information about a single counter update; [kind] is
    ['i'] (increment) or ['s'] (set). *)
Record op := mkOp { kind : ascii; name : string; value : Z }.

(** The state of a channel variable. *)
Inductive chan : Type := Nil | Open | Closed.

(** [Collector].  [ready] stands for the one channel the fields [Ready]
    and [ready] both hold.  [counters] maps a name to the contents of the cell its
    pointer designates: every pointer is allocated by [AddCounter] for one
    key and stored nowhere else, so no two keys share a cell. *)
Record Collector := mkCollector {
  ready : chan;
  path : string;
  startedAt : Time;
  finishedAt : Time;
  counters : gmap string Z;
  ch : chan;
  q : chan
}.

Definition set_startedAt (t : Time) (c : Collector) : Collector :=
  mkCollector (ready c) (path c) t (finishedAt c) (counters c) (ch c) (q c).
Definition set_finishedAt (t : Time) (c : Collector) : Collector :=
  mkCollector (ready c) (path c) (startedAt c) t (counters c) (ch c) (q c).
Definition set_counters (m : gmap string Z) (c : Collector) : Collector :=
  mkCollector (ready c) (path c) (startedAt c) (finishedAt c) m (ch c) (q c).
Definition set_ch (x : chan) (c : Collector) : Collector :=
  mkCollector (ready c) (path c) (startedAt c) (finishedAt c) (counters c) x (q c).
Definition set_q (x : chan) (c : Collector) : Collector :=
  mkCollector (ready c) (path c) (startedAt c) (finishedAt c) (counters c) (ch c) x.

(** What the process can observe outside the collector: the file system
    and the trace of what the collector did to it so far. *)
Inductive event : Type :=
  | EvWriteFile (filename data : string)
  | EvReady
  | EvOp (u : op)
  | EvQuit.

Record World := mkWorld { fs : os.FileSystem; trace : list event }.

(** [ioutil.WriteFile] with the returned error dropped, as every call of
    the package does. *)
Definition write_file (filename data : string) (w : World) : World :=
  mkWorld (fst (ioutil.WriteFile filename data (fs w)))
          (trace w ++ [EvWriteFile filename data]).

Definition log (e : event) (w : World) : World :=
  mkWorld (fs w) (trace w ++ [e]).

(** [NewCollector] returns a collector writing to the given directory.  It
    is given the world, like [Collect], and hands it back as it got it. *)
Definition NewCollector (path : string) (w : World) : Collector * World :=
  (mkCollector Open path time.zero time.zero ∅ Nil Nil, w).

(** [AddCounter] registers a new counter under the given name. *)
Definition AddCounter (name : string) (c : Collector) : Collector :=
  match counters c !! name with
  | Some _ => c
  | None => set_counters (<[name := 0]> (counters c)) c
  end.

Definition Path (c : Collector) : string := path c.
Definition StartedAt (c : Collector) : Time := startedAt c.
Definition FinishedAt (c : Collector) : Time := finishedAt c.

(** [ValueOf] returns the current value of the specified counter: the
    cell is loaded when the name is a key of the map, so the pointer is
    never nil here. *)
Definition ValueOf (name : string) (c : Collector) : Z * option error :=
  match counters c !! name with
  | Some v => (v, None)
  | None => (0, Some (Errorf ("counter " +:+ name +:+ ": doesn't exist")))
  end.

(** What the loop of [Collect] receives: an update on [ch], or the quit
    signal on [q]. *)
Inductive msg : Type :=
  | Update (u : op)
  | Quit.

(** [Inc], [Set] and [Finish] each hand one message to the loop ([Set] is
    spelled [Set_], the name being reserved). *)
Definition Inc (name : string) (change : Z) : msg := Update (mkOp "i" name change).
Definition Set_ (name : string) (value : Z) : msg := Update (mkOp "s" name value).
Definition Finish : msg := Quit.

(** How a call ended: it returned, it panicked, or it is blocked on a
    channel operation. *)
Inductive outcome : Type :=
  | Returned (err : option error)
  | Panicked
  | Blocked.

(** What [Collect] gets from outside while it runs: the two readings of
    the clock, whether somebody receives from [Ready], and the messages
    the [select] receives, in order. *)
Record Schedule := mkSchedule {
  now_start : Time;
  now_finish : Time;
  ready_received : bool;
  inbox : list msg
}.

(** The file of every counter, keyed by the upper-cased name. *)
Definition counter_files (c : Collector) : gmap string string :=
  map_fold (λ name _ fC,
              let name := strings.ToUpper name in
              <[name := path.Join [path c; name]]> fC)
           ∅ (counters c).

(** The [switch] on the kind of an update: the value to write and the
    new counters, or [None] when a nil pointer is dereferenced. *)
Definition apply_op (u : op) (cs : gmap string Z) : option (Z * gmap string Z) :=
  if Ascii.eqb (kind u) "i" then
    match atomic.AddInt64 (cs !! name u) (value u) with
    | Some val => Some (val, <[name u := val]> cs)
    | None => None
    end
  else if Ascii.eqb (kind u) "s" then
    match atomic.StoreInt64 (cs !! name u) (value u) with
    | Some v => Some (value u, <[name u := v]> cs)
    | None => None
    end
  else Some (0, cs).

(** The [for { select { ... } }] loop. *)
Fixpoint loop (fC : gmap string string) (ms : list msg)
    (c : Collector) (w : World) : outcome * Collector * World :=
  match ms with
  | [] => (Blocked, c, w)
  | Quit :: _ => (Returned None, c, log EvQuit w)
  | Update u :: ms' =>
      let w := log (EvOp u) w in
      match fC !! name u with
      | None => loop fC ms' c w
      | Some fname =>
          match apply_op u (counters c) with
          | None => (Panicked, c, w)
          | Some (val, cs) =>
              loop fC ms' (set_counters cs c)
                   (write_file fname (strconv.FormatInt val) w)
          end
      end
  end.

(** The deferred calls, last registered first: [close(self.q)],
    [close(self.ch)], then the function recording the finish time. *)
Definition deferred (s : Schedule) (fF : string) (c : Collector) (w : World)
    : Collector * World :=
  let c := set_q Closed c in
  let c := set_ch Closed c in
  let c := set_finishedAt (now_finish s) c in
  let t := FormatRFC3339 (finishedAt c) in
  (c, write_file fF t w).

(** [Collect] starts the stats collection job. *)
Definition Collect (s : Schedule) (c : Collector) (w : World)
    : outcome * Collector * World :=
  match os.MkdirAll (path c) (fs w) with
  | (fs1, Some err) => (Returned (Some err), c, mkWorld fs1 (trace w))
  | (fs1, None) =>
      let w := mkWorld fs1 (trace w) in
      let fS := path.Join [path c; "STARTED"] in
      let fF := path.Join [path c; "FINISHED"] in
      let fC := counter_files c in
      let c := set_startedAt (now_start s) c in
      let t := FormatRFC3339 (startedAt c) in
      let w := write_file fS t w in
      let c := set_ch Open c in
      let c := set_q Open c in
      if ready_received s then
        match loop fC (inbox s) c (log EvReady w) with
        | (Blocked, c, w) => (Blocked, c, w)
        | (o, c, w) => let '(c, w) := deferred s fF c w in (o, c, w)
        end
      else (Blocked, c, w)
  end.

End statdir.

(** ** Properties *)

Module statdir_facts.

Import time statdir.

(** The collector a program holds once it has created it and registered
    the counters [names], the first of the list first. *)
Definition setup (p : string) (names : list string) (w : World) : Collector :=
  foldl (λ c n, AddCounter n c) (NewCollector p w).1 names.

(** The contents [ioutil.WriteFile] was asked to give to [f], in order. *)
Definition written (f : string) (tr : list event) : list string :=
  omap (λ e, match e with
             | EvWriteFile g d => if decide (g = f) then Some d else None
             | _ => None
             end) tr.

(** The updates received, in order. *)
Definition received (tr : list event) : list op :=
  omap (λ e, match e with EvOp u => Some u | _ => None end) tr.

(** The collector and the world when the loop is entered. *)
Definition started (s : Schedule) (c : Collector) : Collector :=
  set_q Open (set_ch Open (set_startedAt (now_start s) c)).

Definition fS (c : Collector) : string := path.Join [path c; "STARTED"].
Definition fF (c : Collector) : string := path.Join [path c; "FINISHED"].
Arguments fS : simpl never.
Arguments fF : simpl never.

(** Producers.

    [Inc], [Set] and [Finish] block until the loop receives their
    message, and the loop receives one message at a time: what the loop
    receives from several producers is an interleaving of what each of
    them sends. *)

Inductive interleave {A : Type} : list (list A) → list A → Prop :=
  | interleave_done ps :
      Forall (λ p, p = []) ps → interleave ps []
  | interleave_next ps i x p l :
      ps !! i = Some (x :: p) →
      interleave (<[i := p]> ps) l →
      interleave ps (x :: l).

(** Sample inputs: an empty file system, one where the stats directory
    cannot be created because [tmp] is a regular file, and two readings
    of the clock. *)
Definition empty_world : World := mkWorld (os.mkFS ∅ ∅ ∅) [].
Definition blocked_world : World := mkWorld (os.mkFS {["tmp" := "x"]} ∅ ∅) [].
Definition clock1 : Time := mkTime 63535596800 7200.
Definition clock2 : Time := mkTime 63535596900 7200.

(** A send [ch <- v], by the state of the channel: it blocks for ever on a
    nil channel, panics on a closed one, and on an open one completes when
    the loop receives the value. *)
Definition send (c : chan) : outcome :=
  match c with
  | Nil => Blocked
  | Open => Returned None
  | Closed => Panicked
  end.

(** A call of [Inc], [Set] or [Finish] on a collector: the send on [ch],
    for an update, or on [q], for the quit signal. *)
Definition call (m : msg) (c : Collector) : outcome :=
  match m with
  | Update _ => send (ch c)
  | Quit => send (q c)
  end.




(** *** Paths: the last element survives [path.Join] *)

Lemma append_cons x (a b : string) : String x a +:+ b = String x (a +:+ b).
Proof. reflexivity. Qed.

Lemma append_assoc (a b c : string) : (a +:+ b) +:+ c = a +:+ b +:+ c.
Proof. induction a as [|x a IH]; [done|]. by rewrite !append_cons, IH. Qed.

Lemma append_length (a b : string) :
  String.length (a +:+ b) = (String.length a + String.length b)%nat.
Proof. induction a as [|x a IH]; [done|]. rewrite append_cons. cbn. by rewrite IH. Qed.

Lemma segments_not_nil s : path.segments s ≠ [].
Proof.
  destruct s as [|a s]; [done|]. simpl.
  destruct (Ascii.eqb a "/"); [done|]. by destruct (path.segments s).
Qed.

Lemma segments_app a b :
  path.segments (a +:+ "/" +:+ b) = (path.segments a ++ path.segments b)%list.
Proof.
  induction a as [|x a IH]; [done|]. rewrite append_cons. cbn [path.segments].
  rewrite IH. destruct (Ascii.eqb x "/"); [done|].
  pose proof (segments_not_nil a). by destruct (path.segments a).
Qed.

Lemma strings_Join_snoc l x sep :
  ∃ pre, strings.Join (l ++ [x]) sep = pre +:+ x.
Proof.
  induction l as [|e l [pre IH]].
  - by exists "".
  - exists (e +:+ sep +:+ pre).
    change ((e :: l) ++ [x])%list with (e :: (l ++ [x]))%list.
    destruct (l ++ [x])%list as [|y r] eqn:E; [by destruct l|].
    change (strings.Join (e :: y :: r) sep)
      with (e +:+ sep +:+ strings.Join (y :: r) sep).
    by rewrite IH, !append_assoc.
Qed.

Lemma clean_step_real rooted out x :
  String.eqb x "" = false → String.eqb x "." = false → String.eqb x ".." = false →
  path.clean_step rooted out x = x :: out.
Proof. intros H1 H2 H3. unfold path.clean_step. by rewrite H1, H2, H3. Qed.

Lemma Clean_last s l x :
  path.segments s = (l ++ [x])%list →
  String.eqb x "" = false → String.eqb x "." = false → String.eqb x ".." = false →
  ∃ pre, path.Clean s = pre +:+ x.
Proof.
  intros Hs H1 H2 H3. unfold path.Clean.
  destruct (String.eqb_spec s "") as [->|Hne].
  { destruct l; simplify_eq/=. destruct l; simplify_eq/=. }
  rewrite Hs, fold_left_app. cbn [fold_left].
  rewrite clean_step_real by done. cbn [rev].
  destruct (strings_Join_snoc (rev (fold_left (path.clean_step (String.prefix "/" s)) l [])) x "/")
    as [pre ->].
  destruct (String.prefix "/" s).
  - exists ("/" +:+ pre). by rewrite append_assoc.
  - destruct (String.eqb_spec (pre +:+ x) "") as [E|_]; [|by eauto].
    apply (f_equal String.length) in E. rewrite append_length in E.
    destruct x; simplify_eq/=. lia.
Qed.

Lemma Join_last p x :
  path.segments x = [x] →
  String.eqb x "" = false → String.eqb x "." = false → String.eqb x ".." = false →
  ∃ pre, path.Join [p; x] = pre +:+ x.
Proof.
  intros Hs H1 H2 H3. cbn [path.Join]. rewrite H1.
  destruct (String.eqb p "").
  - cbn [strings.Join]. by apply (Clean_last x [] x).
  - cbn [strings.Join]. apply (Clean_last _ (path.segments p) x); try done.
    by rewrite segments_app, Hs.
Qed.

Lemma suffix_STARTED_FINISHED pre1 pre2 :
  pre1 +:+ "STARTED" ≠ pre2 +:+ "FINISHED".
Proof.
  revert pre2. induction pre1 as [|a pre1 IH]; intros pre2 H.
  - apply (f_equal String.length) in H. rewrite !append_length in H. simpl in H. lia.
  - destruct pre2 as [|b pre2].
    + pose proof (f_equal String.length H) as Hl.
      rewrite !append_length in Hl. simpl in Hl.
      destruct pre1; [|simpl in Hl; lia]. by simplify_eq/=.
    + rewrite !append_cons in H. injection H as _ H. by apply IH in H.
Qed.

(** The two markers never share a file. *)
Lemma marker_paths_differ p :
  path.Join [p; "STARTED"] ≠ path.Join [p; "FINISHED"].
Proof.
  destruct (Join_last p "STARTED") as [pre1 ->]; try done.
  destruct (Join_last p "FINISHED") as [pre2 ->]; try done.
  apply suffix_STARTED_FINISHED.
Qed.

(** *** Registration *)

Lemma AddCounter_lookup n m c :
  counters (AddCounter n c) !! m =
    if decide (n = m) then Some (default 0 (counters c !! n)) else counters c !! m.
Proof.
  unfold AddCounter. destruct (counters c !! n) as [v|] eqn:E; simpl.
  - case_decide; subst; [by rewrite E | done].
  - case_decide; subst; [by rewrite lookup_insert_eq | by rewrite lookup_insert_ne].
Qed.

Lemma AddCounter_frame n c :
  path (AddCounter n c) = path c ∧ startedAt (AddCounter n c) = startedAt c ∧
  finishedAt (AddCounter n c) = finishedAt c ∧ ch (AddCounter n c) = ch c ∧
  q (AddCounter n c) = q c ∧ ready (AddCounter n c) = ready c.
Proof. unfold AddCounter. by destruct (counters c !! n). Qed.

Lemma foldl_AddCounter_frame names c :
  let c' := foldl (λ c n, AddCounter n c) c names in
  path c' = path c ∧ startedAt c' = startedAt c ∧ finishedAt c' = finishedAt c.
Proof.
  revert c. induction names as [|n names IH]; intros c; simpl; [done|].
  destruct (IH (AddCounter n c)) as (-> & -> & ->).
  by destruct (AddCounter_frame n c) as (-> & -> & -> & _).
Qed.

Lemma foldl_AddCounter_lookup names c m :
  counters (foldl (λ c n, AddCounter n c) c names) !! m =
    if decide (m ∈ names) then Some (default 0 (counters c !! m)) else counters c !! m.
Proof.
  revert c. induction names as [|n names IH]; intros c; cbn [foldl].
  - destruct (decide (m ∈ [])) as [H|]; [by apply elem_of_nil in H | done].
  - rewrite IH, !AddCounter_lookup.
    destruct (decide (n = m)) as [->|Hne].
    + rewrite (decide_True (P := m ∈ m :: names)) by left.
      destruct (decide (m ∈ names)); [|done]. simpl.
      by destruct (counters c !! m).
    + destruct (decide (m ∈ names)) as [H1|H1];
        destruct (decide (m ∈ n :: names)) as [H2|H2]; try done.
      * exfalso. apply H2. by right.
      * exfalso. apply elem_of_cons in H2 as [->|]; done.
Qed.

Lemma setup_lookup p names w m :
  counters (setup p names w) !! m = if decide (m ∈ names) then Some 0 else None.
Proof. unfold setup. rewrite foldl_AddCounter_lookup. simpl. by rewrite lookup_empty. Qed.

(** *** The table of counter files *)

Lemma counter_files_lookup c k f :
  counter_files c !! k = Some f ↔
  (∃ n, is_Some (counters c !! n) ∧ strings.ToUpper n = k) ∧ f = path.Join [path c; k].
Proof.
  unfold counter_files. generalize (path c) as p. intros p. revert k f.
  apply (map_fold_weak_ind
    (λ (r : gmap string string) (m : gmap string Z), ∀ k f, r !! k = Some f ↔
       (∃ n, is_Some (m !! n) ∧ strings.ToUpper n = k) ∧ f = path.Join [p; k])).
  - intros k f. rewrite lookup_empty. split; [done|].
    intros [(n & [v Hv] & _) _]. by rewrite lookup_empty in Hv.
  - intros n v m r Hn IH k f. cbn zeta.
    destruct (decide (strings.ToUpper n = k)) as [<-|Hne].
    + rewrite lookup_insert_eq. split.
      * intros [= <-]. split; [|done]. exists n. by rewrite lookup_insert_eq.
      * intros [_ ->]. done.
    + rewrite lookup_insert_ne by done. rewrite IH. split.
      * intros [(n' & [v' Hv'] & Hk) ->]. split; [|done]. exists n'. split; [|done].
        destruct (decide (n = n')) as [->|]; [congruence|].
        rewrite lookup_insert_ne by done. eauto.
      * intros [(n' & [v' Hv'] & Hk) ->]. split; [|done]. exists n'. split; [|done].
        destruct (decide (n = n')) as [->|]; [congruence|].
        rewrite lookup_insert_ne in Hv' by done. eauto.
Qed.

Lemma counter_files_registered c n :
  is_Some (counters c !! n) →
  counter_files c !! strings.ToUpper n = Some (path.Join [path c; strings.ToUpper n]).
Proof. intros H. apply counter_files_lookup. eauto. Qed.


(** *** The switch *)

Lemma apply_op_dom u cs val cs' :
  apply_op u cs = Some (val, cs') → dom cs' = dom cs.
Proof.
  unfold apply_op, atomic.AddInt64, atomic.StoreInt64. intros H.
  assert (∀ v x, cs !! name u = Some v → dom (<[name u := x]> cs) = dom cs) as Hd.
  { intros v x Hv. rewrite dom_insert_L.
    assert (name u ∈ dom cs) by (apply elem_of_dom; eauto). set_solver. }
  destruct (Ascii.eqb (kind u) "i").
  { destruct (cs !! name u) eqn:E; simplify_eq. eauto. }
  destruct (Ascii.eqb (kind u) "s").
  { destruct (cs !! name u) eqn:E; simplify_eq. eauto. }
  by simplify_eq.
Qed.

Lemma apply_op_None u cs :
  apply_op u cs = None ↔
  (kind u = "i"%char ∨ kind u = "s"%char) ∧ cs !! name u = None.
Proof.
  unfold apply_op, atomic.AddInt64, atomic.StoreInt64.
  destruct (Ascii.eqb_spec (kind u) "i") as [Hi|Hi].
  { destruct (cs !! name u); naive_solver. }
  destruct (Ascii.eqb_spec (kind u) "s") as [Hs|Hs].
  { destruct (cs !! name u); naive_solver. }
  naive_solver.
Qed.

(** *** The loop *)

Lemma written_app f tr1 tr2 : written f (tr1 ++ tr2) = (written f tr1 ++ written f tr2)%list.
Proof. apply omap_app. Qed.

Lemma received_app tr1 tr2 : received (tr1 ++ tr2) = (received tr1 ++ received tr2)%list.
Proof. apply omap_app. Qed.

Lemma loop_frame fC ms c w o c' w' :
  loop fC ms c w = (o, c', w') →
  path c' = path c ∧ startedAt c' = startedAt c ∧ finishedAt c' = finishedAt c ∧
  ch c' = ch c ∧ q c' = q c ∧ ready c' = ready c ∧
  dom (counters c') = dom (counters c) ∧
  (∀ e, o ≠ Returned (Some e)).
Proof.
  revert c w. induction ms as [|[u|] ms IH]; intros c w H; simpl in H.
  - by simplify_eq.
  - destruct (fC !! name u) as [fname|]; [|by eapply IH].
    destruct (apply_op u (counters c)) as [[val cs]|] eqn:Ha; [|by simplify_eq].
    apply IH in H. simpl in H. apply apply_op_dom in Ha. rewrite <- Ha. apply H.
  - by simplify_eq.
Qed.

(** Whatever the loop writes, it writes to the file of a counter, and
    it signals nothing on [Ready]. *)
Lemma loop_trace fC ms c w o c' w' :
  loop fC ms c w = (o, c', w') →
  ∃ tr, trace w' = (trace w ++ tr)%list ∧
        (∀ f, (∀ k, fC !! k ≠ Some f) → written f tr = []) ∧
        (received tr = [] → ∀ f, written f tr = []).
Proof.
  revert c w. induction ms as [|[u|] ms IH]; intros c w H; simpl in H.
  - simplify_eq. exists []. by rewrite app_nil_r.
  - destruct (fC !! name u) as [fname|] eqn:Hf.
    + destruct (apply_op u (counters c)) as [[val cs]|] eqn:Ha.
      * apply IH in H as (tr & Htr & Hw & _). simpl in Htr.
        exists (EvOp u :: EvWriteFile fname (strconv.FormatInt val) :: tr).
        split; [by rewrite Htr, <- !app_assoc|]. split; [|done].
        intros f Hnf. cbn. rewrite decide_False; [by apply Hw |].
        intros ->. by apply (Hnf (name u)).
      * simplify_eq. exists [EvOp u]. done.
    + apply IH in H as (tr & Htr & Hw & _). simpl in Htr.
      exists (EvOp u :: tr). split; [by rewrite Htr, <- app_assoc|]. split; [|done].
      intros f Hnf. cbn. by apply Hw.
  - simplify_eq. exists [EvQuit]. done.
Qed.

(** *** [Collect] as a whole *)

Lemma MkdirAll_error p fs0 fs1 err :
  os.MkdirAll p fs0 = (fs1, Some err) → fs1 = fs0.
Proof. unfold os.MkdirAll. intros H. repeat case_decide; by simplify_eq. Qed.


Lemma Collect_unfold s c w fs1 :
  os.MkdirAll (path c) (fs w) = (fs1, None) →
  Collect s c w =
    let w1 := write_file (fS c) (FormatRFC3339 (now_start s)) (mkWorld fs1 (trace w)) in
    if ready_received s then
      match loop (counter_files c) (inbox s) (started s c) (log EvReady w1) with
      | (Blocked, c', w') => (Blocked, c', w')
      | (o, c', w') => let '(c', w') := deferred s (fF c) c' w' in (o, c', w')
      end
    else (Blocked, started s c, w1).
Proof. intros H. unfold Collect. rewrite H. reflexivity. Qed.

Lemma deferred_frame s f c w :
  counters (deferred s f c w).1 = counters c ∧
  path (deferred s f c w).1 = path c ∧
  startedAt (deferred s f c w).1 = startedAt c ∧
  finishedAt (deferred s f c w).1 = now_finish s ∧
  ch (deferred s f c w).1 = Closed ∧ q (deferred s f c w).1 = Closed ∧
  trace (deferred s f c w).2 =
    (trace w ++ [EvWriteFile f (FormatRFC3339 (now_finish s))])%list.
Proof. done. Qed.

(** *** One update at a time *)

Lemma write_file_files f d w :
  f ∉ os.dirs (fs w) → f ∉ os.denied (fs w) →
  os.files (fs (write_file f d w)) = <[f := d]> (os.files (fs w)).
Proof.
  intros H1 H2. unfold write_file, ioutil.WriteFile. simpl.
  by rewrite !decide_False.
Qed.

Lemma write_file_frame f d w :
  os.dirs (fs (write_file f d w)) = os.dirs (fs w) ∧
  os.denied (fs (write_file f d w)) = os.denied (fs w) ∧
  ∀ g, g ≠ f → os.files (fs (write_file f d w)) !! g = os.files (fs w) !! g.
Proof.
  unfold write_file, ioutil.WriteFile. simpl.
  repeat case_decide; simpl; repeat split; try done.
  intros g Hg. by rewrite lookup_insert_ne.
Qed.


(** An increment of a counter that is registered under the very name
    the table has a file for. *)
Lemma loop_Inc fC n d ms c w fname v :
  fC !! n = Some fname → counters c !! n = Some v →
  loop fC (Inc n d :: ms) c w =
    loop fC ms (set_counters (<[n := int64.wrap (v + d)]> (counters c)) c)
         (write_file fname (strconv.FormatInt (int64.wrap (v + d)))
                     (log (EvOp (mkOp "i" n d)) w)).
Proof.
  intros Hf Hv. unfold Inc. simpl. rewrite Hf. unfold apply_op. simpl.
  by rewrite Hv.
Qed.


(** The loop leaves every file alone that is not the file of a counter,
    and creates no directory. *)
Lemma loop_files fC ms c w o c' w' :
  loop fC ms c w = (o, c', w') →
  os.dirs (fs w') = os.dirs (fs w) ∧ os.denied (fs w') = os.denied (fs w) ∧
  ∀ g, (∀ k, fC !! k ≠ Some g) → os.files (fs w') !! g = os.files (fs w) !! g.
Proof.
  revert c w. induction ms as [|[u|] ms IH]; intros c w H; simpl in H.
  - by simplify_eq.
  - destruct (fC !! name u) as [fname|] eqn:Hf; [|by apply IH in H].
    destruct (apply_op u (counters c)) as [[val cs]|]; [|by simplify_eq].
    apply IH in H as (-> & -> & Hg).
    destruct (write_file_frame fname (strconv.FormatInt val) (log (EvOp u) w))
      as (-> & -> & Hw).
    repeat split. intros g Hn. rewrite Hg by done. apply Hw.
    intros ->. by apply (Hn (name u)).
  - by simplify_eq.
Qed.




(** Two registered names with the same upper-cased form have one entry
    of the table, hence one file. *)
Lemma counter_files_alias c n m :
  is_Some (counters c !! n) → is_Some (counters c !! m) →
  strings.ToUpper n = strings.ToUpper m →
  counter_files c !! strings.ToUpper n = Some (path.Join [path c; strings.ToUpper n]) ∧
  counter_files c !! strings.ToUpper m = counter_files c !! strings.ToUpper n.
Proof.
  intros Hn Hm E. split; [by apply counter_files_registered | by rewrite E].
Qed.

(** *** Producers *)

Lemma concat_insert_length {A} (ps : list (list A)) i x p :
  ps !! i = Some (x :: p) →
  length (concat ps) = S (length (concat (<[i := p]> ps))).
Proof.
  revert i. induction ps as [|p0 ps IH]; intros [|i] H; simplify_eq/=.
  - done.
  - rewrite !length_app, (IH i H). lia.
Qed.

(** Producers that all send the same message [x]: whatever the
    interleaving, the loop receives [x] as often as it was sent. *)
Lemma interleave_const {A} (x : A) ps l :
  interleave ps l →
  Forall (Forall (λ y, y = x)) ps →
  l = replicate (length (concat ps)) x.
Proof.
  induction 1 as [ps Hnil|ps i y p l Hi Hl IH]; intros Hall.
  - assert (concat ps = []) as ->; [|done].
    induction Hnil as [|p ps -> _ IHn]; [done|]. simpl. apply IHn.
    by inversion Hall.
  - rewrite (concat_insert_length _ _ _ _ Hi). simpl.
    pose proof (Forall_lookup_1 _ _ _ _ Hall Hi) as Hyp.
    inversion Hyp as [|?? -> Hp]; subst. f_equal. apply IH.
    apply Forall_insert; done.
Qed.

Lemma concat_replicate_length {A} N M (x : A) :
  length (concat (replicate N (replicate M x))) = (N * M)%nat.
Proof.
  induction N as [|N IH]; [done|]. simpl.
  by rewrite length_app, length_replicate, IH.
Qed.

Lemma interleave_replicate {A} N M (x : A) l :
  interleave (replicate N (replicate M x)) l → l = replicate (N * M) x.
Proof.
  intros H. rewrite <- (concat_replicate_length N M x).
  apply interleave_const; [done|].
  apply Forall_replicate, Forall_replicate. done.
Qed.

(** Producers taking turns is one of the interleavings. *)
Lemma interleave_concat {A} (ps : list (list A)) : interleave ps (concat ps).
Proof.
  assert (∀ (qs : list (list A)) (p : list A) ps,
            Forall (λ q, q = []) qs →
            interleave (qs ++ ps) (concat ps) →
            interleave (qs ++ p :: ps) (p ++ concat ps)) as Hp.
  { intros qs p ps' Hq. induction p as [|x p IH]; intros H.
    - simpl. replace (qs ++ [] :: ps')%list with ((qs ++ [[]]) ++ ps')%list
        by (by rewrite <- app_assoc).
      clear Hq. revert qs H. generalize (concat ps') as l. intros l qs H.
      remember (qs ++ ps')%list as r eqn:Er. revert qs ps' Er.
      induction H as [r Hnil|r i y q l Hi Hl IH]; intros qs ps' ->.
      + apply interleave_done. apply Forall_app in Hnil as [H1 H2].
        rewrite !Forall_app. repeat split; try done. by constructor.
      + destruct (decide (i < length qs)%nat) as [Hlt|Hge].
        * rewrite lookup_app_l in Hi by done.
          apply (interleave_next _ i y q).
          { rewrite <- app_assoc, lookup_app_l by done. done. }
          rewrite <- app_assoc, insert_app_l by done. rewrite app_assoc.
          apply IH. by rewrite insert_app_l.
        * rewrite lookup_app_r in Hi by lia.
          apply (interleave_next _ (S i) y q).
          { rewrite lookup_app_r by (rewrite length_app; simpl; lia).
            rewrite length_app. simpl.
            by replace (S i - (length qs + 1))%nat with (i - length qs)%nat by lia. }
          replace (S i) with (length (qs ++ [[]]) + (i - length qs))%nat
            by (rewrite length_app; simpl; lia).
          rewrite insert_app_r. apply IH.
          replace i with (length qs + (i - length qs))%nat at 1 by lia.
          by rewrite insert_app_r.
    - simpl. apply (interleave_next _ (length qs) x p).
      + by rewrite list_lookup_middle.
      + replace (length qs) with (length qs + 0)%nat by lia.
        rewrite insert_app_r. simpl. by apply IH. }
  assert (∀ qs, Forall (λ q : list A, q = []) qs →
                interleave (qs ++ ps) (concat ps)) as Hgen.
  { induction ps as [|p ps IH]; intros qs Hq.
    - rewrite app_nil_r. by apply interleave_done.
    - simpl. apply Hp; [done|]. by apply IH. }
  apply (Hgen []). constructor.
Qed.

(** *** Repeated increments *)

Lemma wrap_in_range v : int64.in_range v → int64.wrap v = v.
Proof.
  unfold int64.in_range, int64.wrap, int64.min, int64.max. intros H.
  rewrite Z.mod_small; lia.
Qed.

Lemma wrap_range z : int64.in_range (int64.wrap z).
Proof.
  unfold int64.in_range, int64.wrap, int64.min, int64.max.
  pose proof (Z.mod_pos_bound (z + 2 ^ 63) (2 ^ 64)). lia.
Qed.

Lemma wrap_add_wrap x y : int64.wrap (int64.wrap x + y) = int64.wrap (x + y).
Proof.
  unfold int64.wrap. f_equal.
  replace ((x + 2 ^ 63) mod 2 ^ 64 - 2 ^ 63 + y + 2 ^ 63)
    with ((x + 2 ^ 63) mod 2 ^ 64 + y) by lia.
  rewrite Zplus_mod_idemp_l. f_equal. lia.
Qed.

Lemma loop_Incs fC n fname k :
  fC !! n = Some fname →
  ∀ c w v ms, counters c !! n = Some v → int64.in_range v →
  ∃ c1 w1,
    loop fC (replicate k (Inc n 1) ++ ms) c w = loop fC ms c1 w1 ∧
    counters c1 !! n = Some (int64.wrap (v + Z.of_nat k)) ∧
    os.dirs (fs w1) = os.dirs (fs w) ∧ os.denied (fs w1) = os.denied (fs w) ∧
    (fname ∉ os.dirs (fs w) → fname ∉ os.denied (fs w) →
       os.files (fs w1) !! fname =
         match k with
         | O => os.files (fs w) !! fname
         | S _ => Some (strconv.FormatInt (int64.wrap (v + Z.of_nat k)))
         end).
Proof.
  intros Hf. induction k as [|k IH]; intros c w v ms Hv Hr.
  - exists c, w. rewrite Z.add_0_r, wrap_in_range by done. done.
  - cbn [replicate app]. rewrite (loop_Inc _ _ _ _ _ _ _ _ Hf Hv).
    pose proof (write_file_frame fname (strconv.FormatInt (int64.wrap (v + 1)))
                  (log (EvOp (mkOp "i" n 1)) w)) as (Hd0 & Hde0 & _).
    pose proof (write_file_files fname (strconv.FormatInt (int64.wrap (v + 1)))
                  (log (EvOp (mkOp "i" n 1)) w)) as Hw0.
    change (fs (log (EvOp (mkOp "i" n 1)) w)) with (fs w) in Hd0, Hde0, Hw0.
    destruct (IH (set_counters (<[n := int64.wrap (v + 1)]> (counters c)) c)
                 (write_file fname (strconv.FormatInt (int64.wrap (v + 1)))
                    (log (EvOp (mkOp "i" n 1)) w))
                 (int64.wrap (v + 1)) ms)
      as (c1 & w1 & -> & Hc & Hd & Hde & Hfile).
    { simpl. by rewrite lookup_insert_eq. }
    { apply wrap_range. }
    exists c1, w1. split; [done|].
    rewrite wrap_add_wrap in Hc, Hfile.
    replace (v + Z.of_nat (S k)) with (v + 1 + Z.of_nat k) by lia.
    split; [done|]. split; [by rewrite Hd, Hd0|]. split; [by rewrite Hde, Hde0|].
    intros H1 H2. rewrite Hfile by (by rewrite ?Hd0, ?Hde0).
    destruct k as [|k]; [|done].
    rewrite Hw0 by done. rewrite lookup_insert_eq. do 3 f_equal. lia.
Qed.

(** What does hold of concurrent increments: for a counter registered
    under a name that is its own upper-cased form, [N] producers sending
    [M] increments by one each leave the counter at [N * M], in memory
    and, where its file can be written, on disk, whatever the order in
    which the loop receives them. *)
Lemma Collect_concurrent_increments p names (w0 w : World) fs1 s n N M l :
  n ∈ names → strings.ToUpper n = n →
  os.MkdirAll p (fs w) = (fs1, None) →
  ready_received s = true →
  interleave (replicate N (replicate M (Inc n 1))) l →
  inbox s = (l ++ [Finish])%list →
  Z.of_nat (N * M) ≤ int64.max →
  let c := setup p names w0 in
  let r := Collect s c w in
  r.1.1 = Returned None ∧
  ValueOf n r.1.2 = (Z.of_nat (N * M), None) ∧
  ((0 < N * M)%nat →
   path.Join [p; n] ∉ os.dirs fs1 → path.Join [p; n] ∉ os.denied fs1 →
   path.Join [p; n] ≠ fF c →
   os.files (fs r.2) !! path.Join [p; n] = Some (strconv.FormatInt (Z.of_nat (N * M)))).
Proof.
  intros Hn Hup Hm Hr Hl Hi Hmax c r.
  assert (path c = p) as Hp.
  { subst c. unfold setup.
    by destruct (foldl_AddCounter_frame names (NewCollector p w0).1) as (-> & _). }
  assert (counters c !! n = Some 0) as Hc.
  { subst c. rewrite setup_lookup. by rewrite decide_True. }
  assert (counter_files c !! n = Some (path.Join [p; n])) as Hf.
  { rewrite <- Hup at 1. rewrite counter_files_registered by eauto.
    by rewrite Hp, Hup. }
  apply interleave_replicate in Hl as ->.
  rewrite <- Hp in Hm. subst r. rewrite (Collect_unfold _ _ _ _ Hm). cbn zeta.
  rewrite Hr, Hi.
  destruct (loop_Incs _ _ _ (N * M) Hf (started s c)
              (log EvReady (write_file (fS c) (FormatRFC3339 (now_start s))
                              (mkWorld fs1 (trace w)))) 0 [Finish])
    as (c1 & w1 & -> & Hc1 & Hd & Hde & Hfile).
  { done. }
  { unfold int64.in_range, int64.min, int64.max. lia. }
  cbn [loop]. cbn -[FormatRFC3339 fS fF path.Join].
  rewrite Z.add_0_l, wrap_in_range in Hc1, Hfile
    by (unfold int64.in_range, int64.min; lia).
  split; [done|]. split; [unfold ValueOf; simpl; by rewrite Hc1|].
  intros Hpos H1 H2 H3.
  destruct (write_file_frame (fF c) (FormatRFC3339 (now_finish s)) (log EvQuit w1))
    as (_ & _ & Hother).
  change (fst (ioutil.WriteFile (fF c) (FormatRFC3339 (now_finish s)) (fs w1)))
    with (fs (write_file (fF c) (FormatRFC3339 (now_finish s)) (log EvQuit w1))).
  rewrite Hother by done. change (fs (log EvQuit w1)) with (fs w1).
  destruct (write_file_frame (fS c) (FormatRFC3339 (now_start s))
              (mkWorld fs1 (trace w))) as (Hd0 & Hde0 & _).
  rewrite Hfile.
  - destruct (N * M)%nat; [lia | done].
  - change (fs (log EvReady ?x)) with (fs x). by rewrite Hd0.
  - change (fs (log EvReady ?x)) with (fs x). by rewrite Hde0.
Qed.

(** ** Main results *)

(** C10. [NewCollector P] touches nothing outside the collector, and the
    accessors read what is stored: [Path] is [P]; [StartedAt] and
    [FinishedAt] are the zero time on the new collector and after any
    registrations; and as long as [Collect] has not left its loop,
    [FinishedAt] still is the zero time. *)
Theorem NewCollector_accessors (P : string) (w : World) :
  let c := (NewCollector P w).1 in
  (NewCollector P w).2 = w ∧
  Path c = P ∧ StartedAt c = time.zero ∧ FinishedAt c = time.zero ∧
  (∀ names, Path (setup P names w) = P ∧
            StartedAt (setup P names w) = time.zero ∧
            FinishedAt (setup P names w) = time.zero) ∧
  (∀ names s w1 c' w', Collect s (setup P names w) w1 = (Blocked, c', w') →
            Path c' = P ∧ FinishedAt c' = time.zero).
Proof.
  simpl. repeat split; try reflexivity.
  - unfold Path, setup. by destruct (foldl_AddCounter_frame names (NewCollector P w).1) as (-> & _).
  - unfold StartedAt, setup. by destruct (foldl_AddCounter_frame names (NewCollector P w).1) as (_ & -> & _).
  - unfold FinishedAt, setup. by destruct (foldl_AddCounter_frame names (NewCollector P w).1) as (_ & _ & ->).
  - pose proof (foldl_AddCounter_frame names (NewCollector P w).1) as (Hp & _).
    fold (setup P names w) in Hp. simpl in Hp.
    destruct (os.MkdirAll (path (setup P names w)) (fs w1)) as [fs1 [err|]] eqn:Hm.
    { unfold Collect in H. rewrite Hm in H. by simplify_eq. }
    rewrite (Collect_unfold _ _ _ _ Hm) in H. cbn zeta in H.
    destruct (ready_received s); [|by simplify_eq].
    destruct (loop _ _ _ _) as [[o c1] w2] eqn:Hl.
    apply loop_frame in Hl as (Hp1 & _).
    destruct o; simplify_eq. unfold Path. by rewrite Hp1.
  - pose proof (foldl_AddCounter_frame names (NewCollector P w).1) as (_ & _ & Hf).
    fold (setup P names w) in Hf. simpl in Hf.
    destruct (os.MkdirAll (path (setup P names w)) (fs w1)) as [fs1 [err|]] eqn:Hm.
    { unfold Collect in H. rewrite Hm in H. by simplify_eq. }
    rewrite (Collect_unfold _ _ _ _ Hm) in H. cbn zeta in H.
    destruct (ready_received s); [|by simplify_eq].
    destruct (loop _ _ _ _) as [[o c1] w2] eqn:Hl.
    apply loop_frame in Hl as (_ & _ & Hf1 & _).
    destruct o; simplify_eq. unfold FinishedAt. by rewrite Hf1.
Qed.

Lemma NewCollector_accessors_witness :
  Path (Collect (mkSchedule clock1 clock2 true [Inc "FOO" 10])
                (setup "tmp" ["FOO"] empty_world) empty_world).1.2 = "tmp" ∧
  FinishedAt (Collect (mkSchedule clock1 clock2 true [Inc "FOO" 10])
                (setup "tmp" ["FOO"] empty_world) empty_world).1.2 = time.zero.
Proof.
  destruct (NewCollector_accessors "tmp" empty_world) as (_ & _ & _ & _ & _ & H).
  eapply (H ["FOO"] (mkSchedule clock1 clock2 true [Inc "FOO" 10]) empty_world).
  vm_compute. reflexivity.
Defined.

(** C5. [ValueOf] returns the current value and no error for every
    registered name, before and after [Collect] has run, the value being
    0 as long as nothing was updated; for a name that was never
    registered it returns an error saying that the counter doesn't
    exist, with 0 in place of a value. *)
Theorem ValueOf_registered (p : string) (names : list string) (w w1 : World)
    (s : Schedule) (n : string) :
  let c := setup p names w in
  let c' := (Collect s c w1).1.2 in
  (∀ c0 v, counters c0 !! n = Some v → ValueOf n c0 = (v, None)) ∧
  (n ∈ names → ValueOf n c = (0, None) ∧
               ∃ v, counters c' !! n = Some v ∧ ValueOf n c' = (v, None)) ∧
  (n ∉ names →
     ValueOf n c = (0, Some (Errorf ("counter " +:+ n +:+ ": doesn't exist"))) ∧
     ValueOf n c' = (0, Some (Errorf ("counter " +:+ n +:+ ": doesn't exist")))).
Proof.
  intros c c'.
  assert (dom (counters c') = dom (counters c)) as Hdom.
  { subst c'. unfold Collect.
    destruct (os.MkdirAll (path c) (fs w1)) as [fs1 [err|]]; [done|].
    destruct (ready_received s); [|done].
    destruct (loop _ _ _ _) as [[o c1] w2] eqn:Hl.
    apply loop_frame in Hl as (_ & _ & _ & _ & _ & _ & Hd & _).
    by destruct o. }
  split; [|split].
  - intros c0 v Hv. unfold ValueOf. by rewrite Hv.
  - intros Hn.
    assert (counters c !! n = Some 0) as Hc.
    { subst c. rewrite setup_lookup. by rewrite decide_True. }
    split; [unfold ValueOf; by rewrite Hc|].
    assert (n ∈ dom (counters c')) as [v Hv]%elem_of_dom.
    { rewrite Hdom. apply elem_of_dom. eauto. }
    exists v. split; [done|]. unfold ValueOf. by rewrite Hv.
  - intros Hn.
    assert (counters c !! n = None) as Hc.
    { subst c. rewrite setup_lookup. by rewrite decide_False. }
    assert (counters c' !! n = None) as Hc'.
    { apply not_elem_of_dom. rewrite Hdom. by apply not_elem_of_dom. }
    unfold ValueOf. by rewrite Hc, Hc'.
Qed.

Lemma ValueOf_registered_witness :
  ValueOf "FOO" (setup "tmp" ["FOO"] empty_world) = (0, None) ∧
  ValueOf "BAR" (setup "tmp" ["FOO"] empty_world) =
    (0, Some (Errorf "counter BAR: doesn't exist")).
Proof.
  pose proof (ValueOf_registered "tmp" ["FOO"] empty_world empty_world
                (mkSchedule clock1 clock2 true [Inc "FOO" 10; Finish]) "FOO") as (_ & H1 & _).
  pose proof (ValueOf_registered "tmp" ["FOO"] empty_world empty_world
                (mkSchedule clock1 clock2 true [Inc "FOO" 10; Finish]) "BAR") as (_ & _ & H2).
  split.
  - apply H1. by left.
  - apply H2. intros [H|H]%elem_of_cons; [discriminate H | by apply elem_of_nil in H].
Defined.

(** C8. [AddCounter] is idempotent: a name that is absent is registered
    with the value zero, a name that is present keeps its value, whatever
    it is, and the rest of the collector is as it was. *)
Theorem AddCounter_idempotent (c : Collector) (n : string) :
  (counters c !! n = None → counters (AddCounter n c) !! n = Some 0) ∧
  (∀ v, counters c !! n = Some v → AddCounter n c = c) ∧
  AddCounter n (AddCounter n c) = AddCounter n c ∧
  (∀ m, m ≠ n → counters (AddCounter n c) !! m = counters c !! m).
Proof.
  repeat split.
  - intros H. unfold AddCounter. rewrite H. simpl. by rewrite lookup_insert_eq.
  - intros v H. unfold AddCounter. by rewrite H.
  - unfold AddCounter at 1.
    rewrite AddCounter_lookup, decide_True by done. done.
  - intros m Hm. rewrite AddCounter_lookup. by rewrite decide_False.
Qed.

Lemma AddCounter_idempotent_witness :
  counters (AddCounter "FOO" (NewCollector "tmp" empty_world).1) !! "FOO" = Some 0 ∧
  AddCounter "FOO" (set_counters {["FOO" := 5]} (NewCollector "tmp" empty_world).1)
    = set_counters {["FOO" := 5]} (NewCollector "tmp" empty_world).1.
Proof.
  split.
  - apply (AddCounter_idempotent (NewCollector "tmp" empty_world).1 "FOO"). reflexivity.
  - apply (AddCounter_idempotent
             (set_counters {["FOO" := 5]} (NewCollector "tmp" empty_world).1) "FOO")
      with (v := 5). reflexivity.
Defined.

(** C6. When the stats directory cannot be created, [Collect] returns the
    error of [os.MkdirAll] at once: the collector and the world are what
    they were, so nothing was written, neither marker nor counter file,
    and the start and finish times are untouched (zero when they were
    zero). *)
Theorem Collect_mkdir_error (s : Schedule) (c : Collector) (w : World)
    (fs1 : os.FileSystem) (err : error) :
  os.MkdirAll (path c) (fs w) = (fs1, Some err) →
  Collect s c w = (Returned (Some err), c, w) ∧
  trace (Collect s c w).2 = trace w ∧
  os.files (fs (Collect s c w).2) = os.files (fs w) ∧
  StartedAt (Collect s c w).1.2 = StartedAt c ∧
  FinishedAt (Collect s c w).1.2 = FinishedAt c ∧
  (StartedAt c = time.zero → StartedAt (Collect s c w).1.2 = time.zero) ∧
  (FinishedAt c = time.zero → FinishedAt (Collect s c w).1.2 = time.zero).
Proof.
  intros H.
  assert (Collect s c w = (Returned (Some err), c, w)) as ->.
  { unfold Collect. rewrite H. apply MkdirAll_error in H as ->. by destruct w. }
  done.
Qed.

Lemma Collect_mkdir_error_witness :
  Collect (mkSchedule clock1 clock2 true [Inc "FOO" 10; Finish])
          (setup "tmp" ["FOO"] blocked_world) blocked_world
  = (Returned (Some (PathError "mkdir" "tmp" "not a directory")),
     setup "tmp" ["FOO"] blocked_world, blocked_world) ∧
  StartedAt (Collect (mkSchedule clock1 clock2 true [Inc "FOO" 10; Finish])
          (setup "tmp" ["FOO"] blocked_world) blocked_world).1.2 = time.zero.
Proof.
  pose proof (Collect_mkdir_error (mkSchedule clock1 clock2 true [Inc "FOO" 10; Finish])
           (setup "tmp" ["FOO"] blocked_world) blocked_world
           (fs blocked_world) (PathError "mkdir" "tmp" "not a directory")) as H.
  destruct H as (H1 & _ & _ & _ & _ & H2 & _); [vm_compute; reflexivity|].
  split; [exact H1 | apply H2; reflexivity].
Defined.

(** C4. When a counter is registered under a name [n] whose upper-cased
    form is not registered itself, an increment or a set sent under the
    upper-cased name finds a file in the table and no cell in the
    counters: [atomic.AddInt64] or [atomic.StoreInt64] is called on a nil
    pointer and [Collect] panics; the request is neither dropped nor
    applied. *)
Theorem Collect_nil_pointer (s : Schedule) (c : Collector) (w : World)
    (fs1 : os.FileSystem) (n : string) (v : Z) (k : ascii) (d : Z) (ms : list msg) :
  counters c !! n = Some v →
  counters c !! strings.ToUpper n = None →
  k = "i"%char ∨ k = "s"%char →
  os.MkdirAll (path c) (fs w) = (fs1, None) →
  ready_received s = true →
  inbox s = Update (mkOp k (strings.ToUpper n) d) :: ms →
  strings.ToUpper n ≠ n ∧
  counter_files c !! strings.ToUpper n = Some (path.Join [path c; strings.ToUpper n]) ∧
  atomic.AddInt64 (counters c !! strings.ToUpper n) d = None ∧
  atomic.StoreInt64 (counters c !! strings.ToUpper n) d = None ∧
  (Collect s c w).1.1 = Panicked ∧
  counters (Collect s c w).1.2 = counters c ∧
  received (trace (Collect s c w).2) =
    (received (trace w) ++ [mkOp k (strings.ToUpper n) d])%list.
Proof.
  intros Hn Hup Hk Hm Hr Hi.
  assert (counter_files c !! strings.ToUpper n
          = Some (path.Join [path c; strings.ToUpper n])) as Hf
    by (apply counter_files_registered; eauto).
  assert (apply_op (mkOp k (strings.ToUpper n) d) (counters c) = None) as Ha
    by (apply apply_op_None; done).
  split; [congruence|]. split; [done|].
  rewrite Hup. split; [done|]. split; [done|].
  rewrite (Collect_unfold _ _ _ _ Hm). cbn zeta. rewrite Hr, Hi.
  cbn [loop name]. rewrite Hf.
  change (counters (started s c)) with (counters c). rewrite Ha.
  cbn -[FormatRFC3339 path.Join received]. split; [done|]. split; [done|].
  by rewrite <- !app_assoc, received_app.
Qed.

Lemma Collect_nil_pointer_witness :
  (Collect (mkSchedule clock1 clock2 true [Inc "FOO" 10; Finish])
           (setup "tmp" ["foo"] empty_world) empty_world).1.1 = Panicked.
Proof.
  eapply (Collect_nil_pointer (mkSchedule clock1 clock2 true [Inc "FOO" 10; Finish])
            (setup "tmp" ["foo"] empty_world) empty_world
            (os.mkFS ∅ {["tmp"]} ∅) "foo" 0 "i" 10 [Finish]).
  - vm_compute. reflexivity.
  - vm_compute. reflexivity.
  - left. reflexivity.
  - vm_compute. reflexivity.
  - reflexivity.
  - reflexivity.
Defined.

(** C7, amended.  Provided no registered counter has the path of a
    marker as its file: one run of [Collect] that gets past
    [os.MkdirAll] asks for [STARTED] to be written exactly once, with the
    start time in RFC3339, and this is the first thing the run does, so
    every update it receives comes clock2; it asks for [FINISHED] to be
    written at most once: not at all while the loop is running, and as the
    last thing it does, with the finish time in RFC3339, when the loop is
    left, by the quit signal or by a panic.  Each marker then holds that
    time where the file can be written. *)
Theorem Collect_markers (s : Schedule) (c : Collector) (w : World)
    (fs1 : os.FileSystem) (o : outcome) (c' : Collector) (w' : World) :
  os.MkdirAll (path c) (fs w) = (fs1, None) →
  (∀ n, is_Some (counters c !! n) →
        path.Join [path c; strings.ToUpper n] ≠ fS c ∧
        path.Join [path c; strings.ToUpper n] ≠ fF c) →
  Collect s c w = (o, c', w') →
  ∃ tr, trace w' = (trace w ++ EvWriteFile (fS c) (FormatRFC3339 (StartedAt c')) :: tr)%list ∧
    StartedAt c' = now_start s ∧
    written (fS c) tr = [] ∧
    (fS c ∉ os.dirs fs1 → fS c ∉ os.denied fs1 →
       os.files (fs w') !! fS c = Some (FormatRFC3339 (StartedAt c'))) ∧
    (o = Blocked → written (fF c) tr = [] ∧ FinishedAt c' = FinishedAt c) ∧
    (o ≠ Blocked →
       ∃ tr0, tr = (tr0 ++ [EvWriteFile (fF c) (FormatRFC3339 (FinishedAt c'))])%list ∧
              written (fF c) tr0 = [] ∧
              FinishedAt c' = now_finish s ∧
              (fF c ∉ os.dirs fs1 → fF c ∉ os.denied fs1 →
                 os.files (fs w') !! fF c = Some (FormatRFC3339 (FinishedAt c')))).
Proof.
  intros Hm Hfree H.
  assert (∀ k, counter_files c !! k ≠ Some (fS c)) as HS.
  { intros k [(n & Hn & <-) E]%counter_files_lookup. by destruct (Hfree n Hn). }
  assert (∀ k, counter_files c !! k ≠ Some (fF c)) as HF.
  { intros k [(n & Hn & <-) E]%counter_files_lookup. by destruct (Hfree n Hn). }
  pose proof (marker_paths_differ (path c)) as Hne. fold (fS c) (fF c) in Hne.
  rewrite (Collect_unfold _ _ _ _ Hm) in H. cbn zeta in H.
  set (w1 := write_file (fS c) (FormatRFC3339 (now_start s)) (mkWorld fs1 (trace w))) in H.
  assert (fS c ∉ os.dirs fs1 → fS c ∉ os.denied fs1 →
          os.files (fs w1) !! fS c = Some (FormatRFC3339 (now_start s))) as Hw1.
  { intros H1 H2. subst w1. rewrite write_file_files by done. apply lookup_insert_eq. }
  destruct (ready_received s).
  - destruct (loop _ _ _ _) as [[o1 c1] w2] eqn:Hl.
    pose proof (loop_frame _ _ _ _ _ _ _ Hl) as (_ & Hst & Hfi & _).
    pose proof (loop_trace _ _ _ _ _ _ _ Hl) as (tr & Htr & Hwr & _).
    pose proof (loop_files _ _ _ _ _ _ _ Hl) as (Hd & Hde & Hfl).
    simpl in Hst, Hfi, Htr, Hd, Hde. rewrite <- !app_assoc in Htr. simpl in Htr.
    assert (os.files (fs w2) !! fS c = os.files (fs w1) !! fS c) as HfS
      by (by rewrite Hfl).
    destruct (write_file_frame (fS c) (FormatRFC3339 (now_start s))
                (mkWorld fs1 (trace w))) as (Hd1 & Hde1 & _).
    fold w1 in Hd1, Hde1. simpl in Hd1, Hde1.
    assert (o1 = Blocked ∧ o = Blocked ∧ c' = c1 ∧ w' = w2 ∨
            o1 ≠ Blocked ∧ o = o1 ∧ (c', w') = deferred s (fF c) c1 w2) as Hcase.
    { destruct o1; [right|right|left]; unfold deferred in H |- *;
        injection H as <- <- <-; done. }
    clear H. destruct Hcase as [(-> & -> & -> & ->)|(Ho1 & -> & Hdef)].
    + exists (EvReady :: tr). unfold StartedAt, FinishedAt. rewrite Hst, Hfi.
      split; [done|]. split; [done|]. split; [by apply Hwr|].
      split; [intros; rewrite HfS; by apply Hw1|].
      split; [intros _; split; [by apply Hwr|done]|done].
    + injection Hdef as -> ->.
      exists (EvReady :: tr ++ [EvWriteFile (fF c) (FormatRFC3339 (now_finish s))])%list.
      unfold StartedAt, FinishedAt. cbn -[FormatRFC3339 written].
      rewrite Hst, Htr, <- !app_assoc. split; [done|]. split; [done|].
      assert (written (fS c) (EvReady :: tr ++
                [EvWriteFile (fF c) (FormatRFC3339 (now_finish s))]) = []) as HwS.
      { change (EvReady :: tr ++ ?l)%list with ((EvReady :: tr) ++ l)%list.
        rewrite written_app.
        change (written (fS c) (EvReady :: tr)) with (written (fS c) tr).
        rewrite Hwr by done. cbn. by rewrite decide_False. }
      split; [done|].
      destruct (write_file_frame (fF c) (FormatRFC3339 (now_finish s)) w2)
        as (_ & _ & Hother).
      change (fst (ioutil.WriteFile (fF c) (FormatRFC3339 (now_finish s)) (fs w2)))
        with (fs (write_file (fF c) (FormatRFC3339 (now_finish s)) w2)).
      split.
      { intros H1 H2. rewrite Hother by done. rewrite HfS. by apply Hw1. }
      split; [done|]. intros _. exists (EvReady :: tr). split; [done|].
      split; [by apply Hwr|]. split; [done|].
      intros H1 H2. rewrite write_file_files; [apply lookup_insert_eq| |].
      * by rewrite Hd, Hd1.
      * by rewrite Hde, Hde1.
  - simplify_eq. exists []. unfold StartedAt, FinishedAt. cbn -[FormatRFC3339].
    split; [done|]. split; [done|]. split; [done|]. split; [done|]. done.
Qed.

Lemma Collect_markers_witness :
  ∃ tr, trace (Collect (mkSchedule clock1 clock2 true [Inc "FOO" 10; Finish])
                 (setup "tmp" ["FOO"] empty_world) empty_world).2
        = EvWriteFile "tmp/STARTED" (FormatRFC3339 clock1) :: tr ∧
        written "tmp/STARTED" tr = [].
Proof.
  destruct (Collect (mkSchedule clock1 clock2 true [Inc "FOO" 10; Finish])
                 (setup "tmp" ["FOO"] empty_world) empty_world) as [[o c'] w'] eqn:E.
  destruct (Collect_markers (mkSchedule clock1 clock2 true [Inc "FOO" 10; Finish])
              (setup "tmp" ["FOO"] empty_world) empty_world
              (os.mkFS ∅ {["tmp"]} ∅) o c' w') as (tr & H1 & H2 & H3 & _).
  - vm_compute. reflexivity.
  - intros n [v Hn]. rewrite setup_lookup in Hn.
    destruct (decide (n ∈ ["FOO"])) as [Hin|]; [|discriminate Hn].
    apply list_elem_of_singleton in Hin as ->. split; vm_compute; discriminate.
  - exact E.
  - exists tr. split; [|exact H3]. cbn [snd]. rewrite H1, H2. reflexivity.
Defined.

(** C7 as stated fails: with a counter registered as [STARTED], the file
    of the counter is the file of the marker, which is written a second
    time by the first update and holds the value of the counter, not the
    start time, in the end. *)
Lemma Collect_markers_counterexample :
  let s := mkSchedule clock1 clock2 true [Inc "STARTED" 1; Finish] in
  let c := setup "tmp" ["STARTED"] empty_world in
  let r := Collect s c empty_world in
  fS c = "tmp/STARTED" ∧
  written (fS c) (trace r.2) = [FormatRFC3339 (StartedAt r.1.2); "1"] ∧
  ¬ (length (written (fS c) (trace r.2)) ≤ 1)%nat ∧
  os.files (fs r.2) !! fS c = Some "1" ∧
  os.files (fs r.2) !! fS c ≠ Some (FormatRFC3339 (StartedAt r.1.2)).
Proof.
  cbv zeta. split; [by vm_compute|]. split; [by vm_compute|].
  split; [vm_compute; lia|]. split; [by vm_compute|]. by vm_compute.
Qed.

(** The run of the package's test: an update of a counter that is not
    registered leaves no file, and the counter [FOO] goes through 10 and
    5. *)
Example test_Collect :
  let r := Collect (mkSchedule clock1 clock2 true
                      [Inc "BAR" 10; Inc "FOO" 10; Inc "FOO" (-5); Finish])
                   (setup "tmp" ["FOO"] empty_world) empty_world in
  r.1.1 = Returned None ∧
  trace r.2 = [EvWriteFile "tmp/STARTED" "2014-05-13T18:53:20+02:00"; EvReady;
               EvOp (mkOp "i" "BAR" 10);
               EvOp (mkOp "i" "FOO" 10); EvWriteFile "tmp/FOO" "10";
               EvOp (mkOp "i" "FOO" (-5)); EvWriteFile "tmp/FOO" "5";
               EvQuit; EvWriteFile "tmp/FINISHED" "2014-05-13T18:55:00+02:00"] ∧
  os.files (fs r.2) !! "tmp/BAR" = None ∧
  os.files (fs r.2) !! "tmp/FOO" = Some "5" ∧
  ValueOf "FOO" r.1.2 = (5, None).
Proof. by vm_compute. Qed.

(** C1, at a counter registered in lower case.  The package promises
    that an update for any registered counter updates its file; yet with
    [foo] registered, the increment of [foo] by 10 is received and
    dropped: the value stays 0 and no file is written for the counter,
    neither [FOO] nor [foo]. *)
Theorem Collect_drops_lowercase_increment :
  let r := Collect (mkSchedule clock1 clock2 true [Inc "foo" 10; Finish])
                   (setup "tmp" ["foo"] empty_world) empty_world in
  ValueOf "foo" (setup "tmp" ["foo"] empty_world) = (0, None) ∧
  r.1.1 = Returned None ∧
  received (trace r.2) = [mkOp "i" "foo" 10] ∧
  ValueOf "foo" r.1.2 = (0, None) ∧
  written "tmp/FOO" (trace r.2) = [] ∧
  os.files (fs r.2) !! "tmp/FOO" = None ∧
  os.files (fs r.2) !! "tmp/foo" = None.
Proof. by vm_compute. Qed.

(** C2, at a name that is the upper-cased form of a registered one.
    [FOO] was never registered, [foo] was: the increment of [FOO] is not
    dropped, [Collect] panics on it. *)
Theorem Collect_panics_on_unregistered :
  let c := setup "tmp" ["foo"] empty_world in
  let r := Collect (mkSchedule clock1 clock2 true [Inc "FOO" 10; Finish]) c empty_world in
  counters c !! "FOO" = None ∧
  ValueOf "FOO" c = (0, Some (Errorf "counter FOO: doesn't exist")) ∧
  r.1.1 = Panicked ∧
  r.1.1 ≠ Returned None.
Proof. by vm_compute. Qed.

(** C3, at the registered name [foo].  The table gives the counter the
    file [tmp/FOO], but a set of [foo] to 7 is dropped: nothing is
    written to [tmp/FOO], and the counter keeps its value. *)
Theorem Collect_lowercase_not_persisted :
  let c := setup "tmp" ["foo"] empty_world in
  let r := Collect (mkSchedule clock1 clock2 true [Set_ "foo" 7; Finish]) c empty_world in
  counter_files c !! strings.ToUpper "foo" = Some "tmp/FOO" ∧
  counter_files c !! "foo" = None ∧
  r.1.1 = Returned None ∧
  written "tmp/FOO" (trace r.2) = [] ∧
  os.files (fs r.2) !! "tmp/FOO" = None ∧
  ValueOf "foo" r.1.2 = (0, None).
Proof. by vm_compute. Qed.

(** C9, at a counter registered in lower case.  Two producers send three
    increments of [foo] by one each; the loop receives all six, one after
    the other, and drops them: the counter is 0 in the end, not 6, and it
    has no file. *)
Theorem Collect_drops_concurrent_increments :
  let producers := replicate 2 (replicate 3 (Inc "foo" 1)) in
  let accepted := replicate 6 (Inc "foo" 1) in
  let r := Collect (mkSchedule clock1 clock2 true (accepted ++ [Finish]))
                   (setup "tmp" ["foo"] empty_world) empty_world in
  interleave producers accepted ∧
  r.1.1 = Returned None ∧
  length (received (trace r.2)) = 6%nat ∧
  ValueOf "foo" r.1.2 = (0, None) ∧
  ValueOf "foo" r.1.2 ≠ (6, None) ∧
  os.files (fs r.2) !! "tmp/FOO" = None ∧
  os.files (fs r.2) !! "tmp/foo" = None.
Proof.
  cbv zeta. split; [apply (interleave_concat (replicate 2 (replicate 3 (Inc "foo" 1))))|].
  by vm_compute.
Qed.

(** ** Further properties of the package *)

(** *** The table and the fate of an update *)







(** *** The loop and the disk *)

Lemma loop_world_independent fC ms c w1 w2 :
  (loop fC ms c w1).1 = (loop fC ms c w2).1 ∧
  ∃ tr, trace (loop fC ms c w1).2 = (trace w1 ++ tr)%list ∧
        trace (loop fC ms c w2).2 = (trace w2 ++ tr)%list.
Proof.
  revert c w1 w2. induction ms as [|[u|] ms IH]; intros c w1 w2; cbn [loop].
  - split; [done|]. exists []. by rewrite !app_nil_r.
  - destruct (fC !! name u) as [fname|].
    + destruct (apply_op u (counters c)) as [[val cs]|].
      * destruct (IH (set_counters cs c)
                     (write_file fname (strconv.FormatInt val) (log (EvOp u) w1))
                     (write_file fname (strconv.FormatInt val) (log (EvOp u) w2)))
          as (E & tr & H1 & H2).
        split; [done|].
        exists (EvOp u :: EvWriteFile fname (strconv.FormatInt val) :: tr).
        rewrite H1, H2. cbn [write_file log trace]. by rewrite <- !app_assoc.
      * split; [done|]. by exists [EvOp u].
    + destruct (IH c (log (EvOp u) w1) (log (EvOp u) w2)) as (E & tr & H1 & H2).
      split; [done|]. exists (EvOp u :: tr).
      rewrite H1, H2. cbn [log trace]. by rewrite <- !app_assoc.
  - split; [done|]. by exists [EvQuit].
Qed.

(** X6. The disk has no say in what [Collect] does once the directory is
    there: on two worlds where [os.MkdirAll] succeeds, whatever the files,
    directories and permissions, [Collect] ends the same way with the same
    collector, having asked for the same writes in the same order; and the
    way it ends is never an error, the errors of [ioutil.WriteFile] being
    dropped (lines 191, 195 and 217). *)
Theorem Collect_ignores_write_errors (s : Schedule) (c : Collector) (w1 w2 : World)
    (fs1 fs2 : os.FileSystem) :
  os.MkdirAll (path c) (fs w1) = (fs1, None) →
  os.MkdirAll (path c) (fs w2) = (fs2, None) →
  (Collect s c w1).1 = (Collect s c w2).1 ∧
  (∀ e, (Collect s c w1).1.1 ≠ Returned (Some e)) ∧
  ∃ tr, trace (Collect s c w1).2 = (trace w1 ++ tr)%list ∧
        trace (Collect s c w2).2 = (trace w2 ++ tr)%list.
Proof.
  intros H1 H2.
  rewrite (Collect_unfold _ _ _ _ H1), (Collect_unfold _ _ _ _ H2). cbn zeta.
  destruct (ready_received s).
  - set (wa := log EvReady (write_file (fS c) (FormatRFC3339 (now_start s))
                              (mkWorld fs1 (trace w1)))).
    set (wb := log EvReady (write_file (fS c) (FormatRFC3339 (now_start s))
                              (mkWorld fs2 (trace w2)))).
    destruct (loop_world_independent (counter_files c) (inbox s) (started s c) wa wb)
      as (E & tr & Ha & Hb).
    pose proof (loop_frame (counter_files c) (inbox s) (started s c) wa) as Hfr.
    destruct (loop (counter_files c) (inbox s) (started s c) wa) as [[oa ca] wa'].
    destruct (loop (counter_files c) (inbox s) (started s c) wb) as [[ob cb] wb'].
    simpl in E. injection E as -> ->.
    destruct (Hfr _ _ _ eq_refl) as (_ & _ & _ & _ & _ & _ & _ & Hne).
    simpl in Ha, Hb. subst wa wb. cbn [log write_file trace] in Ha, Hb.
    destruct ob as [err| |].
    + split; [done|]. split; [intros e; cbn; intros [= ->]; by apply (Hne e)|].
      exists (EvWriteFile (fS c) (FormatRFC3339 (now_start s)) :: EvReady ::
              tr ++ [EvWriteFile (fF c) (FormatRFC3339 (now_finish s))])%list.
      cbn -[FormatRFC3339]. rewrite Ha, Hb. by rewrite <- !app_assoc.
    + split; [done|]. split; [done|].
      exists (EvWriteFile (fS c) (FormatRFC3339 (now_start s)) :: EvReady ::
              tr ++ [EvWriteFile (fF c) (FormatRFC3339 (now_finish s))])%list.
      cbn -[FormatRFC3339]. rewrite Ha, Hb. by rewrite <- !app_assoc.
    + split; [done|]. split; [done|].
      exists (EvWriteFile (fS c) (FormatRFC3339 (now_start s)) :: EvReady :: tr).
      cbn -[FormatRFC3339]. rewrite Ha, Hb. by rewrite <- !app_assoc.
  - split; [done|]. split; [done|].
    by exists [EvWriteFile (fS c) (FormatRFC3339 (now_start s))].
Qed.

(** A world where nothing can be written below [tmp]. *)
Lemma Collect_ignores_write_errors_witness :
  (Collect (mkSchedule clock1 clock2 true [Inc "FOO" 10; Finish])
           (setup "tmp" ["FOO"] empty_world) empty_world).1
  = (Collect (mkSchedule clock1 clock2 true [Inc "FOO" 10; Finish])
           (setup "tmp" ["FOO"] empty_world)
           (mkWorld (os.mkFS ∅ {["tmp"]}
                       {["tmp/STARTED"; "tmp/FINISHED"; "tmp/FOO"]}) [])).1.
Proof.
  eapply (Collect_ignores_write_errors
            (mkSchedule clock1 clock2 true [Inc "FOO" 10; Finish])
            (setup "tmp" ["FOO"] empty_world) empty_world
            (mkWorld (os.mkFS ∅ {["tmp"]}
                        {["tmp/STARTED"; "tmp/FINISHED"; "tmp/FOO"]}) [])).
  - vm_compute. reflexivity.
  - vm_compute. reflexivity.
Defined.

(** *** Finishing *)

Lemma loop_after_quit fC l1 l2 c w :
  loop fC (l1 ++ Quit :: l2) c w = loop fC (l1 ++ [Quit]) c w.
Proof.
  revert c w. induction l1 as [|[u|] l1 IH]; intros c w; cbn [app loop]; [done| |done].
  destruct (fC !! name u); [|done]. by destruct (apply_op u (counters c)) as [[??]|].
Qed.

(** X5. What is sent after the quit signal was received counts for
    nothing: [Collect] does the same with the messages up to the first
    [Finish] whatever follows it (line 218-219). *)
Theorem Collect_stops_at_Finish (t1 t2 : Time) (r : bool) (l1 l2 : list msg)
    (c : Collector) (w : World) :
  Collect (mkSchedule t1 t2 r (l1 ++ Finish :: l2)) c w
  = Collect (mkSchedule t1 t2 r (l1 ++ [Finish])) c w.
Proof.
  unfold Collect, Finish. cbn [inbox ready_received now_start now_finish].
  destruct (os.MkdirAll (path c) (fs w)) as [fs1 [err|]]; [done|].
  destruct r; [|done]. by rewrite loop_after_quit.
Qed.

(** *** When [Collect] returns *)




(** *** What [Collect] leaves alone *)

Lemma apply_op_other u cs val cs' m :
  apply_op u cs = Some (val, cs') → m ≠ name u → cs' !! m = cs !! m.
Proof.
  unfold apply_op, atomic.AddInt64, atomic.StoreInt64. intros H Hm.
  destruct (Ascii.eqb (kind u) "i").
  { destruct (cs !! name u); [|done]. injection H as _ <-. by rewrite lookup_insert_ne. }
  destruct (Ascii.eqb (kind u) "s").
  { destruct (cs !! name u); [|done]. injection H as _ <-. by rewrite lookup_insert_ne. }
  by injection H as _ <-.
Qed.

Lemma loop_other_counters fC ms c w m :
  (∀ u, Update u ∈ ms → name u ≠ m) →
  counters (loop fC ms c w).1.2 !! m = counters c !! m.
Proof.
  revert c w. induction ms as [|[u|] ms IH]; intros c w Hm; cbn [loop]; [done| |done].
  assert (∀ u0, Update u0 ∈ ms → name u0 ≠ m) as Hm' by (intros u0 H0; apply Hm; by right).
  destruct (fC !! name u) as [fname|]; [|by apply IH].
  destruct (apply_op u (counters c)) as [[val cs]|] eqn:Ha; [|done].
  rewrite IH by done. simpl. apply (apply_op_other _ _ _ _ _ Ha).
  intros ->. by apply (Hm u); [left|].
Qed.

(** X8. A counter changes only through updates that carry its name:
    whatever else [Collect] receives and however it ends, a counter for
    which no update is among the messages has the value it had. *)
Theorem Collect_other_counters (s : Schedule) (c : Collector) (w : World) (m : string) :
  (∀ u, Update u ∈ inbox s → name u ≠ m) →
  counters (Collect s c w).1.2 !! m = counters c !! m ∧
  ValueOf m (Collect s c w).1.2 = ValueOf m c.
Proof.
  intros Hm.
  assert (counters (Collect s c w).1.2 !! m = counters c !! m) as E.
  { unfold Collect. destruct (os.MkdirAll (path c) (fs w)) as [fs1 [err|]]; [done|].
    destruct (ready_received s); [|done].
    pose proof (loop_other_counters (counter_files c) (inbox s)
      (set_q Open (set_ch Open (set_startedAt (now_start s) c)))
      (log EvReady (write_file (path.Join [path c; "STARTED"])
                      (FormatRFC3339 (now_start s)) (mkWorld fs1 (trace w)))) m Hm) as Hl.
    destruct (loop _ _ _ _) as [[o c1] w1]. simpl in Hl. by destruct o. }
  split; [done|]. unfold ValueOf. by rewrite E.
Qed.

Lemma Collect_other_counters_witness :
  ValueOf "BAR" (Collect (mkSchedule clock1 clock2 true [Inc "FOO" 10; Set_ "FOO" 3; Finish])
                   (setup "tmp" ["FOO"; "BAR"] empty_world) empty_world).1.2
  = ValueOf "BAR" (setup "tmp" ["FOO"; "BAR"] empty_world).
Proof.
  apply (Collect_other_counters
           (mkSchedule clock1 clock2 true [Inc "FOO" 10; Set_ "FOO" 3; Finish])
           (setup "tmp" ["FOO"; "BAR"] empty_world) empty_world "BAR").
  intros u Hu. cbn [inbox] in Hu.
  apply elem_of_cons in Hu as [Hu|Hu]; [injection Hu as ->; discriminate|].
  apply elem_of_cons in Hu as [Hu|Hu]; [injection Hu as ->; discriminate|].
  apply list_elem_of_singleton in Hu. discriminate Hu.
Defined.





(** *** The channels *)

Lemma foldl_AddCounter_chans names c :
  ch (foldl (λ c n, AddCounter n c) c names) = ch c ∧
  q (foldl (λ c n, AddCounter n c) c names) = q c.
Proof.
  revert c. induction names as [|n names IH]; intros c; cbn [foldl]; [done|].
  destruct (IH (AddCounter n c)) as [-> ->].
  by destruct (AddCounter_frame n c) as (_ & _ & _ & -> & -> & _).
Qed.

(** X10. The channels of a collector through its life.  Before [Collect]
    has made them they are nil, and a call of [Inc], [Set] or [Finish]
    blocks for ever; while [Collect] is in its loop they are open; when
    [os.MkdirAll] fails they are what they were; and once [Collect] has
    left the loop, by the quit signal or by a panic, the deferred calls
    have closed both, so that every later [Inc], [Set] or [Finish]
    panics. *)
Theorem channel_lifecycle (p : string) (names : list string) (w0 : World)
    (s : Schedule) (c : Collector) (w : World) (m : msg) :
  ch (setup p names w0) = Nil ∧ q (setup p names w0) = Nil ∧
  call m (setup p names w0) = Blocked ∧
  (∀ e, (Collect s c w).1.1 = Returned (Some e) →
        ch (Collect s c w).1.2 = ch c ∧ q (Collect s c w).1.2 = q c) ∧
  ((Collect s c w).1.1 = Blocked →
        ch (Collect s c w).1.2 = Open ∧ q (Collect s c w).1.2 = Open) ∧
  ((Collect s c w).1.1 = Returned None ∨ (Collect s c w).1.1 = Panicked →
        ch (Collect s c w).1.2 = Closed ∧ q (Collect s c w).1.2 = Closed ∧
        call m (Collect s c w).1.2 = Panicked).
Proof.
  destruct (foldl_AddCounter_chans names (NewCollector p w0).1) as [Hch Hq].
  fold (setup p names w0) in Hch, Hq. simpl in Hch, Hq.
  split; [done|]. split; [done|].
  split; [destruct m; simpl; by rewrite ?Hch, ?Hq|].
  unfold Collect. destruct (os.MkdirAll (path c) (fs w)) as [fs1 [err|]].
  { simpl. split; [done|]. split; [done|]. by intros [|]. }
  destruct (ready_received s).
  2:{ simpl. split; [done|]. split; [done|]. by intros [|]. }
  pose proof (loop_frame (counter_files c) (inbox s)
    (set_q Open (set_ch Open (set_startedAt (now_start s) c)))
    (log EvReady (write_file (path.Join [path c; "STARTED"])
                    (FormatRFC3339 (now_start s)) (mkWorld fs1 (trace w))))) as Hfr.
  destruct (loop _ _ _ _) as [[o c1] w1].
  destruct (Hfr _ _ _ eq_refl) as (_ & _ & _ & Hc & Hqq & _ & _ & Hne).
  simpl in Hc, Hqq. destruct o as [[e|]| |]; simpl.
  - by destruct (Hne e).
  - split; [done|]. split; [done|]. intros _. by destruct m.
  - split; [done|]. split; [done|]. intros _. by destruct m.
  - split; [done|]. split; [done|]. by intros [|].
Qed.

Lemma channel_lifecycle_witness :
  call (Inc "FOO" 1)
       (Collect (mkSchedule clock1 clock2 true [Inc "FOO" 10; Finish])
                (setup "tmp" ["FOO"] empty_world) empty_world).1.2 = Panicked.
Proof.
  apply (channel_lifecycle "tmp" ["FOO"] empty_world
           (mkSchedule clock1 clock2 true [Inc "FOO" 10; Finish])
           (setup "tmp" ["FOO"] empty_world) empty_world (Inc "FOO" 1)).
  left. vm_compute. reflexivity.
Defined.

(** *** Registration *)

Lemma foldl_AddCounter_counters names c :
  foldl (λ c n, AddCounter n c) c names
  = set_counters (counters (foldl (λ c n, AddCounter n c) c names)) c.
Proof.
  revert c. induction names as [|n names IH]; intros c; cbn [foldl].
  - by destruct c.
  - rewrite IH at 1. unfold AddCounter. by destruct (counters c !! n).
Qed.

(** X11. Only the set of the registered names counts: registering the
    same names in another order, or some of them several times, gives the
    same collector. *)
Theorem setup_order_irrelevant (p : string) (names names' : list string) (w : World) :
  (∀ n, n ∈ names ↔ n ∈ names') →
  setup p names w = setup p names' w.
Proof.
  intros H. unfold setup.
  rewrite (foldl_AddCounter_counters names), (foldl_AddCounter_counters names').
  f_equal. apply map_eq. intros n.
  change (counters (setup p names w) !! n = counters (setup p names' w) !! n).
  rewrite !setup_lookup.
  destruct (decide (n ∈ names)) as [Hn|Hn]; destruct (decide (n ∈ names')) as [Hn'|Hn'];
    try done; exfalso; by apply H in Hn || apply H in Hn'.
Qed.

Lemma setup_order_irrelevant_witness :
  setup "tmp" ["FOO"; "BAR"; "FOO"] empty_world = setup "tmp" ["BAR"; "FOO"] empty_world.
Proof.
  apply setup_order_irrelevant. intros n. rewrite !elem_of_cons.
  pose proof (elem_of_nil n). tauto.
Defined.

(** *** The markers *)

(** X12. Whatever the directory, the file of [STARTED] ends in [STARTED],
    the file of [FINISHED] ends in [FINISHED], and the two are different
    files (lines 180-181). *)
Theorem marker_files (c : Collector) :
  (∃ pre, fS c = pre +:+ "STARTED") ∧
  (∃ pre, fF c = pre +:+ "FINISHED") ∧
  fS c ≠ fF c.
Proof.
  unfold fS, fF.
  destruct (Join_last (path c) "STARTED") as [pre1 E1]; try done.
  destruct (Join_last (path c) "FINISHED") as [pre2 E2]; try done.
  rewrite E1, E2. repeat split; eauto. apply suffix_STARTED_FINISHED.
Qed.

(** *** Writes answer updates *)





(** *** Increments add up *)









(** *** Readiness *)

Lemma loop_no_ready fC ms c w :
  ∃ tr, trace (loop fC ms c w).2 = (trace w ++ tr)%list ∧ EvReady ∉ tr.
Proof.
  revert c w. induction ms as [|[u|] ms IH]; intros c w; cbn [loop].
  - exists []. rewrite app_nil_r. split; [done|]. apply not_elem_of_nil.
  - destruct (fC !! name u) as [fname|].
    + destruct (apply_op u (counters c)) as [[val cs]|].
      * destruct (IH (set_counters cs c)
                     (write_file fname (strconv.FormatInt val) (log (EvOp u) w)))
          as (tr & Htr & Hn).
        exists (EvOp u :: EvWriteFile fname (strconv.FormatInt val) :: tr).
        split; [rewrite Htr; cbn [write_file log trace]; by rewrite <- !app_assoc|].
        rewrite !not_elem_of_cons. done.
      * exists [EvOp u]. split; [done|]. rewrite not_elem_of_cons.
        split; [done|apply not_elem_of_nil].
    + destruct (IH c (log (EvOp u) w)) as (tr & Htr & Hn).
      exists (EvOp u :: tr).
      split; [rewrite Htr; cbn [log trace]; by rewrite <- !app_assoc|].
      rewrite not_elem_of_cons. done.
  - exists [EvQuit]. split; [done|]. rewrite not_elem_of_cons.
    split; [done|apply not_elem_of_nil].
Qed.

(** X2. Readiness is signalled once, after [STARTED] was written and
    before anything is received (line 200): a run that gets past
    [os.MkdirAll] first writes [STARTED]; when somebody receives from
    [Ready] the signal comes next, once, and the updates after it; when
    nobody does, [Collect] stays blocked on the signal and receives
    nothing: the counters keep their values and no file but [STARTED] is
    written. *)
Theorem Collect_ready_once (s : Schedule) (c : Collector) (w : World)
    (fs1 : os.FileSystem) :
  os.MkdirAll (path c) (fs w) = (fs1, None) →
  (ready_received s = true →
     ∃ tr, trace (Collect s c w).2
           = (trace w ++ EvWriteFile (fS c) (FormatRFC3339 (now_start s)) ::
                         EvReady :: tr)%list ∧
           EvReady ∉ tr) ∧
  (ready_received s = false →
     Collect s c w
     = (Blocked, started s c,
        write_file (fS c) (FormatRFC3339 (now_start s)) (mkWorld fs1 (trace w))) ∧
     counters (Collect s c w).1.2 = counters c ∧
     received (trace (Collect s c w).2) = received (trace w)).
Proof.
  intros Hm. rewrite (Collect_unfold _ _ _ _ Hm). cbn zeta. split; intros Hr; rewrite Hr.
  - destruct (loop_no_ready (counter_files c) (inbox s) (started s c)
                (log EvReady (write_file (fS c) (FormatRFC3339 (now_start s))
                                (mkWorld fs1 (trace w))))) as (tr & Htr & Hn).
    destruct (loop _ _ _ _) as [[o c1] w1]. cbn [snd] in Htr.
    cbn [log write_file trace] in Htr. rewrite <- !app_assoc in Htr.
    assert (EvReady ∉ (tr ++ [EvWriteFile (fF c) (FormatRFC3339 (now_finish s))])%list) as Hn'.
    { rewrite not_elem_of_app, not_elem_of_cons. split; [done|].
      split; [done|apply not_elem_of_nil]. }
    destruct o as [err| |].
    + exists (tr ++ [EvWriteFile (fF c) (FormatRFC3339 (now_finish s))])%list.
      split; [|done]. cbn -[FormatRFC3339]. by rewrite Htr, <- !app_assoc.
    + exists (tr ++ [EvWriteFile (fF c) (FormatRFC3339 (now_finish s))])%list.
      split; [|done]. cbn -[FormatRFC3339]. by rewrite Htr, <- !app_assoc.
    + exists tr. split; [|done]. cbn -[FormatRFC3339]. by rewrite Htr.
  - split; [done|]. split; [done|]. cbn -[FormatRFC3339]. rewrite received_app.
    apply app_nil_r.
Qed.

Lemma Collect_ready_once_witness :
  received (trace (Collect (mkSchedule clock1 clock2 false [Inc "FOO" 10; Finish])
                     (setup "tmp" ["FOO"] empty_world) empty_world).2) = [].
Proof.
  destruct (Collect_ready_once (mkSchedule clock1 clock2 false [Inc "FOO" 10; Finish])
              (setup "tmp" ["FOO"] empty_world) empty_world (os.mkFS ∅ {["tmp"]} ∅))
    as (_ & H).
  - vm_compute. reflexivity.
  - destruct H as (_ & _ & H); [reflexivity|]. exact H.
Defined.

(** *** Producers with increments of their own *)





End statdir_facts.

